(** * folly/experimental/logging/LogStreamProcessor.h

    The message-construction part of [LogStreamProcessor]:
    [detail::fallbackFormatOneArg] (both overloads), [fallbackFormat]
    (both overloads), [createLogString] and [formatLogString].

    A [std::string] is a [string]; the buffer behind a [std::string*] and
    the exceptions in flight are threaded by a small state-and-exception
    monad in which the buffer survives a throw, as it does in C++.  The
    [toAppend] overloads are the caller's: they are handed the buffer and
    may do to it what they like. *)

From Stdlib Require Import String Ascii List Bool.
Import ListNotations.

Open Scope string_scope.

(** ** Strings *)

(** The double-quote character that the fallback message puts around the
    format string. *)
Definition dquote : string := String "034"%char EmptyString.

(** [std::string::find(token) != npos]. *)
Fixpoint contains (token s : string) : bool :=
  prefix token s ||
  match s with
  | EmptyString => false
  | String _ s' => contains token s'
  end.

(** The characters of a string. *)
Fixpoint occurs (c : ascii) (s : string) : bool :=
  match s with
  | EmptyString => false
  | String c' s' => Ascii.eqb c c' || occurs c s'
  end.

(** ** Exceptions *)

(** What a [catch (const std::exception&)] handler distinguishes: an
    exception object of a class derived from [std::exception], carrying its
    [what()] text, or an exception of any other type. *)
Inductive exception : Type :=
| std_exception (what : string)
| other_exception.

(** How a call ends. *)
Inductive outcome (A : Type) : Type :=
| returns (a : A)
| throws (e : exception).
Arguments returns {A} a.
Arguments throws {A} e.

(** How a call of a [noexcept] function ends: an exception that reaches the
    function boundary calls [std::terminate]. *)
Inductive noexcept_outcome (A : Type) : Type :=
| Returned (a : A)
| Terminated.
Arguments Returned {A} a.
Arguments Terminated {A}.

(** ** The calls a run makes *)

(** The functions a run enters, recorded in call order, so that
    "is not invoked" is a statement about the run. *)
Inductive call : Type :=
| call_to                                  (* folly::to<std::string>(args...) *)
| call_to_error                            (* folly::to<std::string>("error ...", ex.what()) *)
| call_sformat                             (* folly::sformat(fmt, args...) *)
| call_fallbackFormat                      (* LogStreamProcessor::fallbackFormat *)
| call_fallbackFormatOneArg (conv : bool)  (* detail::fallbackFormatOneArg;
                                              [true]: the toAppend overload *)
| call_demangle                            (* toAppend(folly::demangle(typeid( *arg)), str) *)
| call_toAppend.                           (* toAppend( *arg, str) *)

(** ** State and exceptions *)

Record state : Type := mkState {
  str : string;        (* the std::string the functions append to *)
  calls : list call    (* the calls made so far *)
}.

Definition initial : state := mkState "" [].

Definition M (A : Type) : Type := state -> outcome A * state.

Definition ret {A} (a : A) : M A := fun s => (returns a, s).

Definition bind {A B} (m : M A) (k : A -> M B) : M B :=
  fun s =>
    match m s with
    | (returns a, s') => k a s'
    | (throws e, s') => (throws e, s')
    end.

Definition throw {A} (e : exception) : M A := fun s => (throws e, s).

(** [try { body } catch (const std::exception& ex) { handler(ex.what()) }]:
    only a [std_exception] is caught; the handler runs on the state the
    body left behind. *)
Definition try_catch {A} (body : M A) (handler : string -> M A) : M A :=
  fun s =>
    match body s with
    | (throws (std_exception what), s') => handler what s'
    | r => r
    end.

Declare Scope cpp_scope.
Delimit Scope cpp_scope with cpp.
Notation "m ;; k" := (bind m (fun _ => k))
  (at level 61, right associativity) : cpp_scope.
Notation "'try' body 'catch_std' ex => handler" :=
  (try_catch body (fun ex => handler))
  (at level 60, body at level 61, ex name, handler at level 61) : cpp_scope.
Open Scope cpp_scope.

(** [str->append(t)]. *)
Definition append (t : string) : M unit :=
  fun s => (returns tt, mkState (str s ++ t) (calls s)).

(** What a callee that is handed [str] makes of it: [*str] becomes
    [f( *str)]. *)
Definition modify (f : string -> string) : M unit :=
  fun s => (returns tt, mkState (f (str s)) (calls s)).

(** [str->push_back(c)]. *)
Definition push_back (c : ascii) : M unit := append (String c EmptyString).

(** Reading the buffer ([return result;]). *)
Definition get_str : M string := fun s => (returns (str s), s).

(** Entering a function. *)
Definition enter (c : call) : M unit :=
  fun s => (returns tt, mkState (str s) (calls s ++ [c])).

(** The value of an expression that does not touch the buffer. *)
Definition eval {A} (o : outcome A) : M A := fun s => (o, s).

(** A [noexcept] function body run from the initial state. *)
Definition noexcept {A} (body : M A) : noexcept_outcome A * list call :=
  match body initial with
  | (returns a, s) => (Returned a, calls s)
  | (throws _, s) => (Terminated, calls s)
  end.

(** ** Arguments *)

(** What [toAppend(folly::demangle(typeid( *arg)), str)] does for an
    argument: it appends the demangled name of the argument's type, or
    fails before appending anything (an allocation failure, which is
    derived from [std::exception]). *)
Inductive demangled : Type :=
| type_name (name : string)
| demangle_failed (what : string).

(** What [toAppend( *arg, str)] does for an argument of a type that has a
    [toAppend] overload.  The overload is the caller's, and it is handed
    the buffer itself: [effect] is what it makes of the buffer's contents
    (it may append to them, rewrite them or clear them), and [raised] is
    how it ends: it returns ([None]) or throws. *)
Record conversion : Type := mkToAppend {
  effect : string -> string;
  raised : option exception
}.

(** The conversion that appends [written] to its target and leaves the rest
    alone, as the overloads of folly/Conv.h do. *)
Definition mkConversion (written : string) (raised : option exception)
  : conversion :=
  mkToAppend (fun target => target ++ written) raised.

(** [c] only appends, and what it appends is [written]. *)
Definition appends (c : conversion) (written : string) : Prop :=
  forall target, effect c target = target ++ written.

(** One argument of a log statement, as far as this header looks at it.
    [to_append = None] when no [toAppend(Arg, std::string* )] is found for
    the argument's type. *)
Record Arg : Type := mkArg {
  arg_type : demangled;
  to_append : option conversion
}.

(** The conversion of the argument, if its type has one, only appends. *)
Definition only_appends (arg : Arg) : Prop :=
  forall c, to_append arg = Some c -> exists written, appends c written.

(** [toAppend(folly::demangle(typeid( *arg)), str)]. *)
Definition toAppend_demangle (d : demangled) : M unit :=
  enter call_demangle ;;
  match d with
  | type_name name => append name
  | demangle_failed what => throw (std_exception what)
  end.

(** [toAppend( *arg, str)]. *)
Definition toAppend (c : conversion) : M unit :=
  enter call_toAppend ;;
  modify (effect c) ;;
  match raised c with
  | None => ret tt
  | Some e => throw e
  end.

(** ** folly::to<std::string> *)

(** Modelled from the spec: [folly::to<std::string>(args...)] is declared
    in folly/Conv.h, which is not part of the sources.  It produces the
    concatenation of the arguments' textual conversions across the whole
    list, and fails when one of them fails. *)
Fixpoint toAppend_all (args : list conversion) : M unit :=
  match args with
  | [] => ret tt
  | c :: rest => toAppend c ;; toAppend_all rest
  end.

Definition folly_to (args : list conversion) : outcome string :=
  fst ((toAppend_all args ;; get_str) initial).

(** A C string ([const char*]) converts to its characters. *)
Definition c_str (s : string) : conversion := mkConversion s None.

Section LogStreamProcessor.

(** [#ifdef FOLLY_HAS_RTTI]. *)
Variable FOLLY_HAS_RTTI : bool.

(** ** detail::fallbackFormatOneArg *)

(** The overload [fallbackFormatOneArg(std::string*, const Arg*, int)],
    viable when [toAppend(Arg, std::string* )] is well-formed. *)
Definition fallbackFormatOneArg_int (d : demangled) (c : conversion) : M unit :=
  enter (call_fallbackFormatOneArg true) ;;
  push_back "(" ;;
  (try
     ((if FOLLY_HAS_RTTI
       then toAppend_demangle d ;; append ": "
       else ret tt) ;;
      toAppend c)
   catch_std _ =>
     append "<error_converting_to_string>") ;;
  push_back ")".

(** The overload [fallbackFormatOneArg(std::string*, const Arg*, long)]. *)
Definition fallbackFormatOneArg_long (d : demangled) : M unit :=
  enter (call_fallbackFormatOneArg false) ;;
  push_back "(" ;;
  (if FOLLY_HAS_RTTI
   then
     try (toAppend_demangle d ;; append ": ")
     catch_std _ => ret tt (* Ignore the error *)
   else ret tt) ;;
  append "<no_string_conversion>)".

(** Overload resolution of [detail::fallbackFormatOneArg(str, &arg, 0)]:
    the [int] overload is the better match whenever it is viable. *)
Definition fallbackFormatOneArg (arg : Arg) : M unit :=
  match to_append arg with
  | Some c => fallbackFormatOneArg_int (arg_type arg) c
  | None => fallbackFormatOneArg_long (arg_type arg)
  end.

(** ** LogStreamProcessor::fallbackFormat *)

(** [fallbackFormat(str, arg1, remainder...)]; with an empty [remainder]
    the one-argument overload is the more specialised one. *)
Fixpoint fallbackFormat (arg1 : Arg) (remainder : list Arg) : M unit :=
  enter call_fallbackFormat ;;
  match remainder with
  | [] => fallbackFormatOneArg arg1
  | arg2 :: rest =>
      fallbackFormatOneArg arg1 ;;
      append ", " ;;
      fallbackFormat arg2 rest
  end.

(** The call [fallbackFormat(&result, args...)] for a whole pack: both
    overloads take at least one argument, so for an empty pack no overload
    is viable and the call is ill-formed. *)
Definition fallbackFormat_pack (args : list Arg) : option (M unit) :=
  match args with
  | [] => None
  | arg1 :: remainder => Some (fallbackFormat arg1 remainder)
  end.

(** ** LogStreamProcessor::createLogString *)

Section createLogString.

(** The pack [Args&&... args] is only forwarded. *)
Variable Args : Type.

(** [folly::to<std::string>(args...)] of folly/Conv.h, at the types of the
    pack. *)
Variable to : Args -> outcome string.

Definition createLogString (args : Args) : noexcept_outcome string * list call :=
  noexcept
    (try
       (enter call_to ;; eval (to args))
     catch_std what =>
       (enter call_to_error ;;
        eval (folly_to [c_str "error constructing log message: "; c_str what]))).

End createLogString.

(** ** LogStreamProcessor::formatLogString *)

(** [folly::sformat(fmt, args...)] of folly/Format.h. *)
Variable sformat : string -> list Arg -> outcome string.

Definition formatLogString (fmt : string) (arg1 : Arg) (remainder : list Arg)
  : noexcept_outcome string * list call :=
  noexcept
    (try
       (enter call_sformat ;; eval (sformat fmt (arg1 :: remainder)))
     catch_std what =>
       ((* std::string result; *)
        append "error formatting log message: " ;;
        append what ;;
        append ("; format string: " ++ dquote) ;;
        append fmt ;;
        append (dquote ++ ", arguments: ") ;;
        fallbackFormat arg1 remainder ;;
        get_str)).

(** Instantiating [formatLogString] for a pack [args...]: its body needs
    the call [fallbackFormat(&result, args...)] to be well-formed. *)
Definition formatLogString_pack (fmt : string) (args : list Arg)
  : option (noexcept_outcome string * list call) :=
  match args with
  | [] => None
  | arg1 :: remainder => Some (formatLogString fmt arg1 remainder)
  end.

End LogStreamProcessor.

(** The message of a run. *)
Definition message {A} (r : noexcept_outcome A * list call) : noexcept_outcome A :=
  fst r.

(** ** What the per-argument stringifier emits *)

(** The text [detail::fallbackFormatOneArg] leaves in an empty buffer when
    it returns; [None] when an exception leaves it. *)
Definition fragment (rtti : bool) (arg : Arg) : option string :=
  match fallbackFormatOneArg rtti arg initial with
  | (returns _, s) => Some (str s)
  | (throws _, _) => None
  end.

(** [m] returns after appending exactly [t] to the buffer it was given. *)
Definition emits (m : M unit) (t : string) : Prop :=
  forall s, fst (m s) = returns tt /\ str (snd (m s)) = str s ++ t.

(** [m] returns the buffer it was given followed by [t]. *)
Definition yields (m : M string) (t : string) : Prop :=
  forall s, fst (m s) = returns (str s ++ t).

(** The state [s] followed by what a run made from [initial]. *)
Definition plus (s d : state) : state :=
  mkState (str s ++ str d) (calls s ++ calls d).

(** [m] only appends: from [s] it ends as it ends from [initial], and it
    leaves what [s] holds followed by what it makes from [initial]. *)
Definition framed {A} (m : M A) : Prop :=
  forall s, m s = (fst (m initial), plus s (snd (m initial))).

(** The conversion of the argument is attempted and throws something that
    is not derived from [std::exception]: the [int] overload is chosen, the
    type-name lookup (when compiled in) does not fail first, and
    [toAppend] throws an exception of another type. *)
Definition escapes (rtti : bool) (arg : Arg) : bool :=
  match to_append arg with
  | Some c =>
      match raised c with
      | Some other_exception =>
          match arg_type arg with
          | type_name _ => true
          | demangle_failed _ => negb rtti
          end
      | _ => false
      end
  | None => false
  end.

(** Every failure of the argument's conversion is of a class derived from
    [std::exception]. *)
Definition raises_only_std (arg : Arg) : Prop :=
  forall c, to_append arg = Some c -> raised c <> Some other_exception.

(** The two placeholder tokens. *)
Definition error_converting_to_string : string := "error_converting_to_string".
Definition no_string_conversion : string := "no_string_conversion".

(** [t] contains neither token. *)
Definition token_free (t : string) : bool :=
  negb (contains error_converting_to_string t) &&
  negb (contains no_string_conversion t).

(** What the stringifier has put in [target] when it calls
    [toAppend( *arg, str)], or when it appends the no-conversion
    placeholder: the opening parenthesis and, with RTTI, the type name and
    a colon. *)
Definition opened (rtti : bool) (d : demangled) (target : string) : string :=
  target ++ "(" ++
  (if rtti
   then match d with
        | type_name name => name ++ ": "
        | demangle_failed _ => ""
        end
   else "").

(** What an empty buffer holds before the stringifier appends a placeholder
    or the closing parenthesis: the opening parenthesis and the type name,
    and, when the conversion is attempted, what the conversion made of
    them. *)
Definition supplied (rtti : bool) (arg : Arg) : string :=
  match to_append arg, rtti, arg_type arg with
  | Some _, true, demangle_failed _ => "("
  | Some c, _, _ => effect c (opened rtti (arg_type arg) "")
  | None, _, _ => opened rtti (arg_type arg) ""
  end.

(** The texts an argument supplies to its fragment (its type name and what
    its conversion leaves in the buffer) contain neither placeholder
    token. *)
Definition supplies_no_token (rtti : bool) (arg : Arg) : bool :=
  token_free (supplied rtti arg).

(** ** Runs of the stringifier and of the composer *)

(** What one call of [detail::fallbackFormatOneArg] on an empty buffer
    leaves behind, whether it returns or not: the text written and the
    calls made. *)
Definition stringifier_run (rtti : bool) (arg : Arg) : state :=
  snd (fallbackFormatOneArg rtti arg initial).

(** The arguments [fallbackFormat] gets to: all of them up to and
    including the first one whose conversion throws past the stringifier. *)
Fixpoint processed (rtti : bool) (args : list Arg) : list Arg :=
  match args with
  | [] => []
  | a :: rest => a :: (if escapes rtti a then [] else processed rtti rest)
  end.

(** * Properties *)

(** ** Strings, states and the monad *)

Lemma append_assoc (a b c : string) : (a ++ b) ++ c = a ++ (b ++ c).
Proof.
  induction a as [|x a IH]; simpl; [reflexivity|].
  now rewrite IH.
Qed.

Lemma append_nil_r (a : string) : a ++ "" = a.
Proof.
  induction a as [|x a IH]; simpl; [reflexivity|].
  now rewrite IH.
Qed.

Lemma Returned_inj {A} (a b : A) : Returned a = Returned b -> a = b.
Proof. now intros [= ->]. Qed.

(** How a sequence ends, and what it leaves behind. *)
Lemma bind_returns {A B} (m : M A) (k : A -> M B) (s s' : state) (a : A) :
  m s = (returns a, s') -> bind m k s = k a s'.
Proof. intros H. unfold bind. now rewrite H. Qed.

Lemma bind_fst {A B} (m : M A) (k : A -> M B) (s : state) (e : exception) :
  fst (m s) = throws e -> fst (bind m k s) = throws e.
Proof.
  unfold bind. destruct (m s) as [[a|e'] s1]; simpl; congruence.
Qed.

Lemma noexcept_calls {A} (body : M A) :
  snd (noexcept body) = calls (snd (body initial)).
Proof.
  unfold noexcept. now destruct (body initial) as [[a|e] s].
Qed.

Lemma snd_bind_get_str (m : M unit) (s : state) :
  snd ((m ;; get_str) s) = snd (m s).
Proof.
  unfold bind, get_str. now destruct (m s) as [[[]|e] s1].
Qed.

Lemma fst_bind_get_str (m : M unit) (s : state) :
  fst (m s) = returns tt ->
  fst ((m ;; get_str) s) = returns (str (snd (m s))).
Proof.
  unfold bind, get_str. destruct (m s) as [[[]|e] s1]; simpl;
    [reflexivity | discriminate].
Qed.

(** ** The per-argument stringifier, whatever the conversion does *)

(** The stringifier ends in one of two ways: it returns, or the exception
    of another type thrown by the conversion leaves it. *)
Lemma fallbackFormatOneArg_outcome (rtti : bool) (arg : Arg) (s : state) :
  fst (fallbackFormatOneArg rtti arg s) =
  if escapes rtti arg then throws other_exception else returns tt.
Proof.
  destruct rtti, arg as [[T|w] [[eff [[w'|]|]]|]]; reflexivity.
Qed.

(** The calls it makes do not depend on the buffer. *)
Lemma fallbackFormatOneArg_calls (rtti : bool) (arg : Arg) (s : state) :
  calls (snd (fallbackFormatOneArg rtti arg s)) =
  (calls s ++ calls (stringifier_run rtti arg))%list.
Proof.
  unfold stringifier_run.
  destruct rtti, arg as [[T|w] [[eff [[w'|]|]]|]]; simpl;
    rewrite <- ?app_assoc; reflexivity.
Qed.

(** When it returns, the last thing it has appended is the closing
    parenthesis. *)
Lemma fallbackFormatOneArg_closes (rtti : bool) (arg : Arg) (s : state) :
  fst (fallbackFormatOneArg rtti arg s) = returns tt ->
  exists pre, str (snd (fallbackFormatOneArg rtti arg s)) = pre ++ ")".
Proof.
  destruct rtti, arg as [[T|w] [[eff [[w'|]|]]|]]; simpl; intros H;
    try discriminate;
    try (eexists; reflexivity);
    match goal with
    | |- exists pre, ?x ++ _ = _ =>
        exists (x ++ "<no_string_conversion>");
        symmetry; exact (append_assoc x "<no_string_conversion>" ")")
    end.
Qed.

Lemma fragment_escapes (rtti : bool) (arg : Arg) :
  fragment rtti arg = None <-> escapes rtti arg = true.
Proof.
  unfold fragment.
  pose proof (fallbackFormatOneArg_outcome rtti arg initial) as H.
  destruct (fallbackFormatOneArg rtti arg initial) as [[[]|e] d]; simpl in H;
    destruct (escapes rtti arg); split; intros; congruence.
Qed.

(** The fragment, case by case. *)
Lemma fragment_cases (rtti : bool) (arg : Arg) :
  fragment rtti arg =
  match to_append arg with
  | None => Some (supplied rtti arg ++ "<no_string_conversion>)")
  | Some c =>
      match rtti, arg_type arg with
      | true, demangle_failed _ =>
          Some (supplied rtti arg ++ "<error_converting_to_string>" ++ ")")
      | _, _ =>
          match raised c with
          | None => Some (supplied rtti arg ++ ")")
          | Some (std_exception _) =>
              Some (supplied rtti arg ++ "<error_converting_to_string>" ++ ")")
          | Some other_exception => None
          end
      end
  end.
Proof.
  unfold fragment, supplied, opened.
  destruct rtti, arg as [[T|w] [[eff [[w'|]|]]|]]; simpl;
    rewrite ?append_assoc; reflexivity.
Qed.

(** ** The fallback composer, whatever the conversions do *)

Lemma fallbackFormat_unfold (rtti : bool) (arg1 arg2 : Arg) (rest : list Arg) :
  fallbackFormat rtti arg1 (arg2 :: rest) =
  (enter call_fallbackFormat ;; fallbackFormatOneArg rtti arg1 ;;
   append ", " ;; fallbackFormat rtti arg2 rest).
Proof. reflexivity. Qed.

Lemma processed_cons (rtti : bool) (a : Arg) (rest : list Arg) :
  processed rtti (a :: rest) =
  a :: (if escapes rtti a then [] else processed rtti rest).
Proof. reflexivity. Qed.

Lemma fallbackFormat_outcome (rtti : bool) (remainder : list Arg) :
  forall (arg1 : Arg) (s : state),
    fst (fallbackFormat rtti arg1 remainder s) =
    if existsb (escapes rtti) (arg1 :: remainder)
    then throws other_exception else returns tt.
Proof.
  induction remainder as [|arg2 rest IH]; intros arg1 s.
  - simpl. unfold bind, enter. rewrite fallbackFormatOneArg_outcome.
    now rewrite orb_false_r.
  - rewrite fallbackFormat_unfold.
    change (existsb (escapes rtti) (arg1 :: arg2 :: rest)) with
      (escapes rtti arg1 || existsb (escapes rtti) (arg2 :: rest)).
    unfold bind at 1. unfold enter at 1. unfold bind at 1.
    pose proof (fallbackFormatOneArg_outcome rtti arg1
                  {| str := str s; calls := calls s ++ [call_fallbackFormat] |}) as H1.
    destruct (fallbackFormatOneArg rtti arg1 _) as [[[]|e] s1]; simpl in H1;
      destruct (escapes rtti arg1); try discriminate; simpl.
    + unfold bind at 1. unfold append at 1. apply IH.
    + congruence.
Qed.

Lemma fallbackFormat_calls (rtti : bool) (remainder : list Arg) :
  forall (arg1 : Arg) (s : state),
    calls (snd (fallbackFormat rtti arg1 remainder s)) =
    (calls s ++
     flat_map (fun a => call_fallbackFormat :: calls (stringifier_run rtti a))
              (processed rtti (arg1 :: remainder)))%list.
Proof.
  induction remainder as [|arg2 rest IH]; intros arg1 s.
  - simpl fallbackFormat. unfold bind at 1. unfold enter at 1.
    rewrite fallbackFormatOneArg_calls, processed_cons.
    replace (if escapes rtti arg1 then [] else processed rtti [])
      with (@nil Arg) by (now destruct (escapes rtti arg1)).
    simpl. now rewrite app_nil_r, <- app_assoc.
  - rewrite fallbackFormat_unfold.
    unfold bind at 1. unfold enter at 1. unfold bind at 1.
    pose proof (fallbackFormatOneArg_outcome rtti arg1
                  {| str := str s; calls := calls s ++ [call_fallbackFormat] |}) as Ho.
    pose proof (fallbackFormatOneArg_calls rtti arg1
                  {| str := str s; calls := calls s ++ [call_fallbackFormat] |}) as Hc.
    rewrite (processed_cons rtti arg1).
    destruct (fallbackFormatOneArg rtti arg1 _) as [o s1]; simpl in Ho, Hc.
    destruct (escapes rtti arg1); subst o.
    + simpl. rewrite Hc, app_nil_r, <- app_assoc. reflexivity.
    + unfold bind at 1. unfold append at 1.
      rewrite IH. simpl calls at 1. rewrite Hc.
      simpl flat_map. rewrite <- !app_assoc. reflexivity.
Qed.

Lemma enter_bind {A} (c : call) (k : M A) (s : state) :
  (enter c ;; k) s = k (mkState (str s) (calls s ++ [c])).
Proof. reflexivity. Qed.

Lemma append_bind {A} (t : string) (k : M A) (s : state) :
  (append t ;; k) s = k (mkState (str s ++ t) (calls s)).
Proof. reflexivity. Qed.

Lemma fallbackFormat_closes (rtti : bool) (remainder : list Arg) :
  forall (arg1 : Arg) (s : state),
    fst (fallbackFormat rtti arg1 remainder s) = returns tt ->
    exists pre, str (snd (fallbackFormat rtti arg1 remainder s)) = pre ++ ")".
Proof.
  induction remainder as [|arg2 rest IH]; intros arg1 s.
  - simpl fallbackFormat. rewrite enter_bind.
    apply fallbackFormatOneArg_closes.
  - rewrite fallbackFormat_unfold, enter_bind.
    unfold bind at 1 3.
    destruct (fallbackFormatOneArg rtti arg1 _) as [[[]|e] s1];
      [|discriminate].
    rewrite append_bind. apply IH.
Qed.

(** ** Conversions that only append *)

Lemma appends_mkConversion (written : string) (r : option exception) :
  appends (mkConversion written r) written.
Proof. intros target. reflexivity. Qed.

Lemma plus_assoc (s d e : state) : plus (plus s d) e = plus s (plus d e).
Proof.
  unfold plus; simpl.
  now rewrite append_assoc, <- app_assoc.
Qed.

Lemma framed_ret {A} (a : A) : framed (ret a).
Proof.
  intros [b l]; unfold ret, plus; simpl.
  now rewrite append_nil_r, app_nil_r.
Qed.

Lemma framed_throw {A} (e : exception) : framed (@throw A e).
Proof.
  intros [b l]; unfold throw, plus; simpl.
  now rewrite append_nil_r, app_nil_r.
Qed.

Lemma framed_append (t : string) : framed (append t).
Proof.
  intros [b l]; unfold append, plus; simpl.
  now rewrite app_nil_r.
Qed.

Lemma framed_push_back (c : ascii) : framed (push_back c).
Proof. apply framed_append. Qed.

Lemma framed_enter (c : call) : framed (enter c).
Proof.
  intros [b l]; unfold enter, plus; simpl.
  now rewrite append_nil_r.
Qed.

Lemma framed_modify (c : conversion) (written : string) :
  appends c written -> framed (modify (effect c)).
Proof.
  intros H [b l]; unfold modify, plus; simpl.
  now rewrite !H, app_nil_r.
Qed.

Lemma framed_bind {A B} (m : M A) (k : A -> M B) :
  framed m -> (forall a, framed (k a)) -> framed (bind m k).
Proof.
  intros Hm Hk s. unfold bind.
  rewrite (Hm s).
  destruct (m initial) as [[a|e] d]; simpl.
  - rewrite (Hk a (plus s d)), (Hk a d), plus_assoc. reflexivity.
  - reflexivity.
Qed.

Lemma framed_try_catch {A} (body : M A) (handler : string -> M A) :
  framed body -> (forall what, framed (handler what)) ->
  framed (try_catch body handler).
Proof.
  intros Hb Hh s. unfold try_catch.
  rewrite (Hb s).
  destruct (body initial) as [[a|[what|]] d]; simpl; try reflexivity.
  rewrite (Hh what (plus s d)), (Hh what d), plus_assoc. reflexivity.
Qed.

Create HintDb framed.
#[local] Hint Resolve framed_ret framed_throw framed_append framed_push_back
  framed_enter : framed.

Ltac framed :=
  repeat first
    [ solve [eauto with framed]
    | apply framed_bind; [|intros ?]
    | apply framed_try_catch; [|intros ?]
    | match goal with |- framed (if ?b then _ else _) => destruct b end
    | match goal with |- framed (match ?x with _ => _ end) => destruct x end ].

Lemma framed_toAppend_demangle (d : demangled) : framed (toAppend_demangle d).
Proof. unfold toAppend_demangle. framed. Qed.

Lemma framed_toAppend (c : conversion) (written : string) :
  appends c written -> framed (toAppend c).
Proof.
  intros H. pose proof (framed_modify c written H).
  unfold toAppend. framed.
Qed.

#[local] Hint Resolve framed_toAppend_demangle : framed.

Lemma framed_fallbackFormatOneArg (rtti : bool) (arg : Arg) :
  only_appends arg -> framed (fallbackFormatOneArg rtti arg).
Proof.
  intros H. unfold fallbackFormatOneArg.
  destruct arg as [d [c|]]; cbn [to_append arg_type].
  - destruct (H c eq_refl) as [written Hc].
    pose proof (framed_toAppend c written Hc).
    unfold fallbackFormatOneArg_int. framed.
  - unfold fallbackFormatOneArg_long. framed.
Qed.

Lemma emits_run (m : M unit) (t : string) (s : state) :
  emits m t -> exists l, m s = (returns tt, mkState (str s ++ t) l).
Proof.
  intros H. destruct (H s) as [H1 H2].
  destruct (m s) as [o [b l]]; simpl in *. subst. now exists l.
Qed.

Lemma emits_append (t : string) : emits (append t) t.
Proof. intros s. now split. Qed.

Lemma emits_enter (c : call) : emits (enter c) "".
Proof. intros s. split; simpl; [reflexivity | now rewrite append_nil_r]. Qed.

Lemma emits_bind (m k : M unit) (t u : string) :
  emits m t -> emits k u -> emits (m ;; k) (t ++ u).
Proof.
  intros Hm Hk s.
  destruct (emits_run m t s Hm) as [l Hl].
  rewrite (bind_returns _ _ _ _ _ Hl).
  destruct (Hk (mkState (str s ++ t) l)) as [H1 H2].
  split; [exact H1 | rewrite H2; simpl; apply append_assoc].
Qed.

(** The fragment of an argument whose conversion only appends is what the
    stringifier appends to any buffer. *)
Lemma fragment_emits (rtti : bool) (arg : Arg) (f : string) :
  only_appends arg ->
  fragment rtti arg = Some f <-> emits (fallbackFormatOneArg rtti arg) f.
Proof.
  intros Ha. unfold fragment. split.
  - intros H s. rewrite (framed_fallbackFormatOneArg rtti arg Ha s).
    destruct (fallbackFormatOneArg rtti arg initial) as [[[]|e] d]; [|discriminate].
    injection H as <-. now split.
  - intros H. destruct (H initial) as [H1 H2].
    destruct (fallbackFormatOneArg rtti arg initial) as [[[]|e] d]; simpl in *;
      [now subst | discriminate].
Qed.

Lemma fragments_exist (rtti : bool) (args : list Arg) :
  existsb (escapes rtti) args = false ->
  exists frags, Forall2 (fun a f => fragment rtti a = Some f) args frags.
Proof.
  induction args as [|a args IH]; simpl; intros H.
  - exists []. constructor.
  - apply orb_false_iff in H as [Ha Hargs].
    destruct (IH Hargs) as [frags Hfrags].
    destruct (fragment rtti a) as [f|] eqn:Hf.
    + exists (f :: frags). now constructor.
    + apply fragment_escapes in Hf. congruence.
Qed.

Lemma raises_only_std_escapes (rtti : bool) (args : list Arg) :
  Forall raises_only_std args -> existsb (escapes rtti) args = false.
Proof.
  induction 1 as [|a args Ha _ IH]; simpl; [reflexivity|].
  rewrite IH, orb_false_r.
  unfold raises_only_std in Ha. unfold escapes.
  destruct (to_append a) as [c|]; [|reflexivity].
  specialize (Ha c eq_refl).
  destruct (raised c) as [[w|]|]; try reflexivity.
  now destruct Ha.
Qed.

Lemma fallbackFormat_emits (rtti : bool) (remainder : list Arg) :
  forall (arg1 : Arg) (frags : list string),
    Forall only_appends (arg1 :: remainder) ->
    Forall2 (fun a f => fragment rtti a = Some f) (arg1 :: remainder) frags ->
    emits (fallbackFormat rtti arg1 remainder) (String.concat ", " frags).
Proof.
  induction remainder as [|arg2 rest IH]; intros arg1 frags Ha H;
    inversion Ha as [|? ? Ha1 Ha2]; subst.
  - inversion H as [|? f ? fs Hf Hrest]; subst. inversion Hrest; subst.
    simpl. apply (emits_bind _ _ ""); [apply emits_enter|].
    now apply fragment_emits.
  - inversion H as [|? f ? fs Hf Hrest]; subst.
    specialize (IH arg2 fs Ha2 Hrest).
    inversion Hrest as [|? f2 ? fs' ? ?]; subst.
    change (String.concat ", " (f :: f2 :: fs'))
      with ("" ++ f ++ ", " ++ String.concat ", " (f2 :: fs')).
    rewrite fallbackFormat_unfold.
    repeat apply emits_bind; auto using emits_enter, emits_append.
    now apply fragment_emits.
Qed.

(** ** The message builders *)

(** The run of [formatLogString] after [folly::sformat] threw a
    [std::exception]. *)
Lemma formatLogString_fallback
    (rtti : bool) (sformat : string -> list Arg -> outcome string)
    (fmt : string) (arg1 : Arg) (remainder : list Arg) (what : string) :
  sformat fmt (arg1 :: remainder) = throws (std_exception what) ->
  formatLogString rtti sformat fmt arg1 remainder =
  noexcept
    (fun _ =>
       (append "error formatting log message: " ;;
        append what ;;
        append ("; format string: " ++ dquote) ;;
        append fmt ;;
        append (dquote ++ ", arguments: ") ;;
        fallbackFormat rtti arg1 remainder ;;
        get_str) (mkState "" [call_sformat])).
Proof.
  intros H. unfold formatLogString, noexcept, try_catch.
  unfold bind at 1. unfold enter at 1. unfold eval at 1.
  now rewrite H.
Qed.

Lemma yields_get_str : yields get_str "".
Proof. intros s. simpl. now rewrite append_nil_r. Qed.

Lemma yields_bind (m : M unit) (k : M string) (t u : string) :
  emits m t -> yields k u -> yields (m ;; k) (t ++ u).
Proof.
  intros Hm Hk s.
  destruct (emits_run m t s Hm) as [l Hl].
  rewrite (bind_returns _ _ _ _ _ Hl), Hk. simpl.
  now rewrite append_assoc.
Qed.

Lemma header_yields (what fmt : string) (k : M unit) (t : string) :
  emits k t ->
  yields
    (append "error formatting log message: " ;;
     append what ;;
     append ("; format string: " ++ dquote) ;;
     append fmt ;;
     append (dquote ++ ", arguments: ") ;;
     k ;;
     get_str)
    ("error formatting log message: " ++ what ++ "; format string: " ++
     dquote ++ fmt ++ dquote ++ ", arguments: " ++ t).
Proof.
  intros Hk.
  replace ("; format string: " ++ dquote ++ fmt ++ dquote ++ ", arguments: " ++ t)
    with (("; format string: " ++ dquote) ++ fmt ++ (dquote ++ ", arguments: ") ++ t ++ "")
    by (now rewrite append_nil_r).
  repeat apply yields_bind; auto using emits_append, yields_get_str.
Qed.

Lemma noexcept_yields (m : M string) (t : string) (l : list call) :
  yields m t -> fst (noexcept (fun _ => m (mkState "" l))) = Returned t.
Proof.
  intros H. unfold noexcept. specialize (H (mkState "" l)).
  destruct (m (mkState "" l)) as [[a|e] s1]; simpl in *; congruence.
Qed.

(** The exact text, when the conversions only append. *)
Lemma formatLogString_appending
    (rtti : bool) (sformat : string -> list Arg -> outcome string)
    (fmt : string) (arg1 : Arg) (remainder : list Arg)
    (what : string) (frags : list string) :
  sformat fmt (arg1 :: remainder) = throws (std_exception what) ->
  Forall only_appends (arg1 :: remainder) ->
  Forall2 (fun a f => fragment rtti a = Some f) (arg1 :: remainder) frags ->
  message (formatLogString rtti sformat fmt arg1 remainder) =
  Returned
    ("error formatting log message: " ++ what ++ "; format string: " ++
     dquote ++ fmt ++ dquote ++ ", arguments: " ++ String.concat ", " frags).
Proof.
  intros Hs Ha Hf.
  rewrite (formatLogString_fallback _ _ _ _ _ _ Hs).
  apply noexcept_yields, header_yields.
  now apply fallbackFormat_emits.
Qed.

(** How [formatLogString] ends, case by case, whatever the conversions do
    to the buffer. *)
Lemma formatLogString_message
    (rtti : bool) (sformat : string -> list Arg -> outcome string)
    (fmt : string) (arg1 : Arg) (remainder : list Arg) :
  match sformat fmt (arg1 :: remainder) with
  | returns s =>
      message (formatLogString rtti sformat fmt arg1 remainder) = Returned s
  | throws other_exception =>
      formatLogString rtti sformat fmt arg1 remainder = (Terminated, [call_sformat])
  | throws (std_exception what) =>
      if existsb (escapes rtti) (arg1 :: remainder)
      then message (formatLogString rtti sformat fmt arg1 remainder) = Terminated
      else exists pre,
          message (formatLogString rtti sformat fmt arg1 remainder) =
          Returned (pre ++ ")")
  end.
Proof.
  destruct (sformat fmt (arg1 :: remainder)) as [s|[what|]] eqn:Hs.
  - unfold formatLogString, noexcept, try_catch.
    unfold bind at 1. unfold enter at 1. unfold eval at 1.
    now rewrite Hs.
  - rewrite (formatLogString_fallback _ _ _ _ _ _ Hs).
    unfold message, noexcept.
    rewrite !append_bind.
    match goal with
    | |- context [(fallbackFormat rtti arg1 remainder ;; get_str) ?s0] =>
        pose proof (fallbackFormat_outcome rtti remainder arg1 s0) as Ho;
        pose proof (fallbackFormat_closes rtti remainder arg1 s0) as Hc;
        pose proof (fst_bind_get_str (fallbackFormat rtti arg1 remainder) s0) as Hg;
        pose proof (bind_fst (fallbackFormat rtti arg1 remainder)
                      (fun _ => get_str) s0 other_exception) as Ht;
        destruct ((fallbackFormat rtti arg1 remainder ;; get_str) s0)
          as [[m|e] s1]
    end;
      destruct (existsb (escapes rtti) (arg1 :: remainder)); simpl in *.
    + specialize (Ht Ho). discriminate.
    + destruct (Hc Ho) as [pre Hpre]. exists pre.
      specialize (Hg Ho). injection Hg as ->. now rewrite Hpre.
    + reflexivity.
    + specialize (Hg Ho). discriminate.
  - unfold formatLogString, noexcept, try_catch.
    unfold bind at 1. unfold enter at 1. unfold eval at 1.
    now rewrite Hs.
Qed.

Lemma fragment_opens (rtti : bool) (arg : Arg) (f : string) :
  only_appends arg ->
  fragment rtti arg = Some f -> exists rest, f = String "(" rest.
Proof.
  intros Ha. rewrite fragment_cases. unfold supplied, opened.
  destruct arg as [d [c|]]; cbn [to_append arg_type].
  - destruct (Ha c eq_refl) as [w Hw]. rewrite !Hw.
    destruct rtti, d as [T|x], (raised c) as [[x'|]|]; simpl; intros H;
      try discriminate; injection H as <-; eexists; reflexivity.
  - destruct rtti, d as [T|x]; simpl; intros H; injection H as <-;
      eexists; reflexivity.
Qed.

(** Strings that end alike end with the same character. *)
Lemma last_character (a b : string) (c d : ascii) :
  a ++ String c "" = b ++ String d "" -> c = d.
Proof.
  revert b. induction a as [|x a IH]; intros [|y b] H; simpl in H.
  - now injection H.
  - injection H as _ H. destruct b; discriminate.
  - injection H as _ H. destruct a; discriminate.
  - injection H as _ H. now apply (IH b).
Qed.

Lemma append_closing_differs (a b : string) :
  a ++ ")" <> b ++ ", arguments: ".
Proof.
  intros H.
  change (b ++ ", arguments: ") with (b ++ ", arguments:" ++ String " " "") in H.
  rewrite <- append_assoc in H.
  apply last_character in H. discriminate.
Qed.

(** C2. When the primary attempt succeeds, that is when
    [folly::to<std::string>(args...)] returns in concatenation mode and
    when [folly::sformat(fmt, args...)] returns in template mode, the
    message is exactly what the attempt returned, and the attempt is the
    only call made: no error text is built and neither [fallbackFormat]
    nor [fallbackFormatOneArg] is entered. *)
Theorem transparency_on_success :
  (forall (Args : Type) (to : Args -> outcome string) (args : Args) (s : string),
      to args = returns s ->
      createLogString Args to args = (Returned s, [call_to])) /\
  (forall (rtti : bool) (sformat : string -> list Arg -> outcome string)
          (fmt : string) (arg1 : Arg) (remainder : list Arg) (s : string),
      sformat fmt (arg1 :: remainder) = returns s ->
      formatLogString rtti sformat fmt arg1 remainder =
      (Returned s, [call_sformat])).
Proof.
  split.
  - intros Args to args s H.
    unfold createLogString, noexcept, try_catch, bind, enter, eval; simpl.
    now rewrite H.
  - intros rtti sformat fmt arg1 remainder s H.
    unfold formatLogString, noexcept, try_catch.
    unfold bind at 1. unfold enter at 1. unfold eval at 1.
    now rewrite H.
Qed.

Lemma transparency_on_success_witness :
  createLogString (list conversion) folly_to
    [mkConversion "42" None; mkConversion "x" None]
  = (Returned "42x", [call_to]) /\
  formatLogString true (fun _ _ => returns "3 widgets") "{} widgets"
    (mkArg (type_name "int") (Some (mkConversion "3" None))) []
  = (Returned "3 widgets", [call_sformat]).
Proof.
  destruct transparency_on_success as [Hc Hf].
  split; [apply Hc | apply Hf]; reflexivity.
Defined.

(** C6. When in concatenation mode the whole-list conversion throws an
    exception derived from [std::exception], the message is exactly
    ["error constructing log message: "] followed by the [what()] text of
    the exception caught; the only calls made are the two of
    [folly::to<std::string>], so the fallback composer is not entered and
    the message holds no per-argument breakdown. *)
Theorem concatenation_failure_message
    (Args : Type) (to : Args -> outcome string) (args : Args) (what : string) :
  to args = throws (std_exception what) ->
  createLogString Args to args =
  (Returned ("error constructing log message: " ++ what), [call_to; call_to_error]).
Proof.
  intros H.
  unfold createLogString, noexcept, try_catch, bind, enter, eval; simpl.
  now rewrite H.
Qed.

Lemma concatenation_failure_message_witness :
  createLogString (list conversion) folly_to
    [mkConversion "42" None;
     mkConversion "" (Some (std_exception "conversion failed"))]
  = (Returned "error constructing log message: conversion failed",
     [call_to; call_to_error]).
Proof.
  apply (concatenation_failure_message (list conversion) folly_to
           [mkConversion "42" None;
            mkConversion "" (Some (std_exception "conversion failed"))]
           "conversion failed").
  reflexivity.
Defined.

(** C8. Concatenation mode with no argument succeeds with the empty
    message. *)
Theorem concatenation_of_no_arguments :
  createLogString (list conversion) folly_to [] = (Returned "", [call_to]).
Proof. reflexivity. Qed.

(** C3, as amended.  When in template mode [folly::sformat] throws an
    exception derived from [std::exception], every argument's conversion
    only appends to the buffer it is handed, and no conversion throws an
    exception of a type not derived from [std::exception], the message is
    exactly: the literal ["error formatting log message: "], the [what()]
    text of the exception caught, the literal [; format string: ] with an
    opening double quote, the template verbatim, a closing double quote
    with the literal [, arguments: ], and then the fragments of the
    per-argument stringifier, one for each argument in argument order,
    joined by [", "] with no separator before the first or after the
    last. *)
Theorem template_failure_message
    (rtti : bool) (sformat : string -> list Arg -> outcome string)
    (fmt : string) (arg1 : Arg) (remainder : list Arg) (what : string) :
  sformat fmt (arg1 :: remainder) = throws (std_exception what) ->
  Forall only_appends (arg1 :: remainder) ->
  Forall raises_only_std (arg1 :: remainder) ->
  exists frags,
    Forall2 (fun a f => fragment rtti a = Some f) (arg1 :: remainder) frags /\
    message (formatLogString rtti sformat fmt arg1 remainder) =
    Returned
      ("error formatting log message: " ++ what ++ "; format string: " ++
       dquote ++ fmt ++ dquote ++ ", arguments: " ++ String.concat ", " frags).
Proof.
  intros Hs Ha Hr.
  destruct (fragments_exist rtti _ (raises_only_std_escapes rtti _ Hr))
    as [frags Hf].
  exists frags. split; [exact Hf|].
  now apply formatLogString_appending.
Qed.

(** C3 as stated fails: [folly::sformat] throws a [std::exception] and the
    one argument's [toAppend] clears the buffer it is handed and returns;
    all that is left of the message is the closing parenthesis. *)
Lemma template_failure_message_counterexample :
  message
    (formatLogString true (fun _ _ => throws (std_exception "invalid format string"))
       "{} widgets"
       (mkArg (type_name "Widget") (Some (mkToAppend (fun _ => "") None)))
       [])
  = Returned ")".
Proof. reflexivity. Qed.

Lemma template_failure_message_witness :
  exists frags,
    Forall2 (fun a f => fragment true a = Some f)
      [mkArg (type_name "Widget") None;
       mkArg (type_name "int") (Some (mkConversion "42" None));
       mkArg (type_name "ToStringFailure")
         (Some (mkConversion "" (Some (std_exception "conversion failed"))))]
      frags /\
    message
      (formatLogString true (fun _ _ => throws (std_exception "invalid format string"))
         "{} widgets"
         (mkArg (type_name "Widget") None)
         [mkArg (type_name "int") (Some (mkConversion "42" None));
          mkArg (type_name "ToStringFailure")
            (Some (mkConversion "" (Some (std_exception "conversion failed"))))])
    = Returned
        ("error formatting log message: " ++ "invalid format string" ++
         "; format string: " ++ dquote ++ "{} widgets" ++ dquote ++
         ", arguments: " ++ String.concat ", " frags).
Proof.
  apply (template_failure_message true
           (fun _ _ => throws (std_exception "invalid format string"))).
  - reflexivity.
  - repeat constructor; intros c [= <-]; eexists; apply appends_mkConversion.
  - repeat constructor; intros c [= <-]; discriminate.
Defined.

(** C1, as amended.  Provided that every failure is of a class derived
    from [std::exception] (that of the primary attempt, and on the fallback
    path that of each argument's conversion), and with at least one
    argument in template mode, constructing the message returns a string.
    In concatenation mode it is what the primary attempt returned, or
    ["error constructing log message: "] and the [what()] text.  In
    template mode it is what the primary attempt returned, or a diagnostic
    that ends with a closing parenthesis; when every argument's conversion
    only appends to the buffer it is handed, that diagnostic is
    ["error formatting log message: "], the [what()] text, the template
    and the arguments' fragments. *)
Theorem construction_returns_a_string :
  (forall (Args : Type) (to : Args -> outcome string) (args : Args),
      to args <> throws other_exception ->
      exists s,
        message (createLogString Args to args) = Returned s /\
        (forall t, to args = returns t -> s = t) /\
        (forall what, to args = throws (std_exception what) ->
                      s = "error constructing log message: " ++ what)) /\
  (forall (rtti : bool) (sformat : string -> list Arg -> outcome string)
          (fmt : string) (arg1 : Arg) (remainder : list Arg),
      sformat fmt (arg1 :: remainder) <> throws other_exception ->
      Forall raises_only_std (arg1 :: remainder) ->
      exists s,
        message (formatLogString rtti sformat fmt arg1 remainder) = Returned s /\
        (forall t, sformat fmt (arg1 :: remainder) = returns t -> s = t) /\
        (forall what, sformat fmt (arg1 :: remainder) = throws (std_exception what) ->
           (exists pre, s = pre ++ ")") /\
           (Forall only_appends (arg1 :: remainder) ->
            exists frags,
              Forall2 (fun a f => fragment rtti a = Some f) (arg1 :: remainder) frags /\
              s = "error formatting log message: " ++ what ++ "; format string: " ++
                  dquote ++ fmt ++ dquote ++ ", arguments: " ++
                  String.concat ", " frags))).
Proof.
  split.
  - intros Args to args H.
    unfold createLogString, noexcept, try_catch, bind, enter, eval, message; simpl.
    destruct (to args) as [t|[what|]] eqn:E; simpl.
    + exists t. repeat split; [now intros t' [= <-] | discriminate].
    + exists ("error constructing log message: " ++ what).
      repeat split; [discriminate | now intros what' [= <-]].
    + now destruct H.
  - intros rtti sformat fmt arg1 remainder H Hargs.
    pose proof (formatLogString_message rtti sformat fmt arg1 remainder) as Hm.
    destruct (sformat fmt (arg1 :: remainder)) as [t|[what|]] eqn:E.
    + exists t.
      split; [exact Hm | split; [now intros t' [= <-] | discriminate]].
    + pose proof (raises_only_std_escapes rtti _ Hargs) as He.
      rewrite He in Hm. destruct Hm as [pre Hm].
      exists (pre ++ ")"). split; [exact Hm|]. split; [discriminate|].
      intros what' [= <-]. split; [now exists pre|].
      intros Ha. destruct (fragments_exist rtti _ He) as [frags Hf].
      exists frags. split; [exact Hf|].
      apply Returned_inj. rewrite <- Hm.
      now apply formatLogString_appending.
    + now destruct H.
Qed.

(** C1 as stated fails: in template mode, [folly::sformat] throws a
    [std::exception] and the one argument's [toAppend] throws an exception
    of another type; no string is returned. *)
Lemma construction_returns_a_string_counterexample :
  message
    (formatLogString true (fun _ _ => throws (std_exception "invalid format string"))
       "{} widgets"
       (mkArg (type_name "Widget") (Some (mkConversion "" (Some other_exception))))
       [])
  = Terminated.
Proof. reflexivity. Qed.

Lemma construction_returns_a_string_witness :
  (exists s,
      message (createLogString (list conversion) folly_to
                 [mkConversion "42" None;
                  mkConversion "" (Some (std_exception "conversion failed"))])
      = Returned s /\
      s = "error constructing log message: conversion failed") /\
  (exists s,
      message
        (formatLogString true (fun _ _ => throws (std_exception "invalid format string"))
           "{} widgets"
           (mkArg (type_name "Widget") None)
           [mkArg (type_name "ToStringFailure")
              (Some (mkConversion "" (Some (std_exception "conversion failed"))))])
      = Returned s).
Proof.
  destruct construction_returns_a_string as [Hc Hf].
  split.
  - destruct (Hc (list conversion) folly_to
                [mkConversion "42" None;
                 mkConversion "" (Some (std_exception "conversion failed"))])
      as [s [Hs [_ Hw]]]; [discriminate|].
    exists s. split; [exact Hs|]. now apply Hw.
  - destruct (Hf true (fun _ _ => throws (std_exception "invalid format string"))
                "{} widgets"
                (mkArg (type_name "Widget") None)
                [mkArg (type_name "ToStringFailure")
                   (Some (mkConversion "" (Some (std_exception "conversion failed"))))])
      as [s [Hs _]]; [discriminate| |].
    + repeat constructor; intros c [= <-]; discriminate.
    + now exists s.
Defined.

(** C7, as amended.  Template mode takes at least one argument: for an
    empty pack, and only for it, the call of [fallbackFormat] has no viable
    overload, so [formatLogString] has no instance without arguments.  With arguments,
    a diagnostic string never ends right after [, arguments: ]: whenever
    [formatLogString] returns after [folly::sformat] threw a
    [std::exception], the message ends with the closing parenthesis the
    last stringifier appended.  When the conversions only append to the
    buffer they are handed, what follows [, arguments: ] opens with the
    parenthesis of the first fragment, and with a single argument it is
    exactly that argument's fragment, with no separator. *)
Theorem template_mode_takes_an_argument :
  (forall rtti args, fallbackFormat_pack rtti args = None <-> args = []) /\
  (forall rtti sformat fmt args,
      formatLogString_pack rtti sformat fmt args = None <-> args = []) /\
  (forall rtti sformat fmt arg1 remainder what msg,
      sformat fmt (arg1 :: remainder) = throws (std_exception what) ->
      message (formatLogString rtti sformat fmt arg1 remainder) = Returned msg ->
      (exists pre, msg = pre ++ ")") /\
      (forall pre, msg <> pre ++ ", arguments: ")) /\
  (forall rtti sformat fmt arg what f,
      sformat fmt [arg] = throws (std_exception what) ->
      only_appends arg ->
      fragment rtti arg = Some f ->
      exists r,
        formatLogString_pack rtti sformat fmt [arg] = Some r /\
        message r =
        Returned
          ("error formatting log message: " ++ what ++ "; format string: " ++
           dquote ++ fmt ++ dquote ++ ", arguments: " ++ f)) /\
  (forall rtti sformat fmt arg1 remainder what msg,
      sformat fmt (arg1 :: remainder) = throws (std_exception what) ->
      Forall only_appends (arg1 :: remainder) ->
      message (formatLogString rtti sformat fmt arg1 remainder) = Returned msg ->
      exists rest,
        msg =
        "error formatting log message: " ++ what ++ "; format string: " ++
        dquote ++ fmt ++ dquote ++ ", arguments: " ++ String "(" rest).
Proof.
  split; [|split; [|split; [|split]]].
  - intros rtti [|a args]; split; intros H; try reflexivity; discriminate.
  - intros rtti sformat fmt [|a args]; split; intros H; try reflexivity;
      discriminate.
  - intros rtti sformat fmt arg1 remainder what msg Hs Hm.
    pose proof (formatLogString_message rtti sformat fmt arg1 remainder) as H.
    rewrite Hs in H.
    destruct (existsb (escapes rtti) (arg1 :: remainder)).
    + rewrite Hm in H. discriminate.
    + destruct H as [pre H]. rewrite Hm in H. apply Returned_inj in H.
      subst msg. split; [now exists pre|].
      intros pre'. apply append_closing_differs.
  - intros rtti sformat fmt arg what f Hs Ha Hf.
    eexists. split; [reflexivity|].
    apply (formatLogString_appending rtti sformat fmt arg [] what [f] Hs);
      now repeat constructor.
  - intros rtti sformat fmt arg1 remainder what msg Hs Ha Hm.
    pose proof (formatLogString_message rtti sformat fmt arg1 remainder) as H.
    rewrite Hs in H.
    destruct (existsb (escapes rtti) (arg1 :: remainder)) eqn:He.
    + rewrite Hm in H. discriminate.
    + destruct (fragments_exist rtti _ He) as [frags Hf].
      pose proof (formatLogString_appending rtti sformat fmt arg1 remainder
                    what frags Hs Ha Hf) as Hx.
      rewrite Hm in Hx. apply Returned_inj in Hx. subst msg.
      inversion Hf as [|? f ? fs Hf1 Hfs]; subst.
      inversion Ha as [|? ? Ha1 _]; subst.
      destruct (fragment_opens _ _ _ Ha1 Hf1) as [rest ->].
      destruct fs as [|f2 fs]; eexists; reflexivity.
Qed.

(** C7 as stated fails: with an empty argument list [formatLogString] has
    no instance, whatever [folly::sformat] does; no diagnostic string is
    produced. *)
Lemma template_mode_takes_an_argument_counterexample :
  formatLogString_pack true
    (fun _ _ => throws (std_exception "invalid format string")) "no arguments" []
  = None.
Proof. reflexivity. Qed.

Lemma template_mode_takes_an_argument_witness :
  exists r,
    formatLogString_pack true
      (fun _ _ => throws (std_exception "invalid format string")) "{} widgets"
      [mkArg (type_name "Widget") None]
    = Some r /\
    message r =
    Returned
      ("error formatting log message: " ++ "invalid format string" ++
       "; format string: " ++ dquote ++ "{} widgets" ++ dquote ++
       ", arguments: " ++ "(Widget: <no_string_conversion>)").
Proof.
  destruct template_mode_takes_an_argument as [_ [_ [_ [H _]]]].
  apply (H true (fun _ _ => throws (std_exception "invalid format string"))
           "{} widgets" (mkArg (type_name "Widget") None)
           "invalid format string" "(Widget: <no_string_conversion>)");
    [reflexivity | intros c; discriminate | reflexivity].
Defined.

(** C9. The three failure boundaries catch [const std::exception&] only.
    - [createLogString] returns a message exactly when
      [folly::to<std::string>] does not throw an exception of another
      type; when it does, nothing is caught, no error text is built and
      the run ends in [std::terminate].
    - [formatLogString] likewise ends in [std::terminate], with no fallback
      text built, when [folly::sformat] throws an exception of another
      type; it returns a message exactly when [folly::sformat] throws no
      such exception and, on the fallback path, no argument's conversion
      does.
    - The [toAppend] overload of [fallbackFormatOneArg] puts the
      placeholder for a [std::exception] thrown by the conversion, after
      what the conversion made of the buffer; an exception of another type
      leaves the function, with no placeholder and no closing parenthesis
      appended. *)
Theorem only_std_exceptions_are_caught :
  (forall (Args : Type) (to : Args -> outcome string) (args : Args),
      (to args = throws other_exception ->
       createLogString Args to args = (Terminated, [call_to])) /\
      ((exists s, message (createLogString Args to args) = Returned s) <->
       to args <> throws other_exception)) /\
  (forall (rtti : bool) (sformat : string -> list Arg -> outcome string)
          (fmt : string) (arg1 : Arg) (remainder : list Arg),
      (sformat fmt (arg1 :: remainder) = throws other_exception ->
       formatLogString rtti sformat fmt arg1 remainder = (Terminated, [call_sformat])) /\
      ((exists s, message (formatLogString rtti sformat fmt arg1 remainder) = Returned s) <->
       sformat fmt (arg1 :: remainder) <> throws other_exception /\
       (forall what, sformat fmt (arg1 :: remainder) = throws (std_exception what) ->
                     existsb (escapes rtti) (arg1 :: remainder) = false))) /\
  (forall (T : string) (c : conversion) (s : state),
      (forall what, raised c = Some (std_exception what) ->
         fst (fallbackFormatOneArg false (mkArg (type_name T) (Some c)) s) = returns tt /\
         str (snd (fallbackFormatOneArg false (mkArg (type_name T) (Some c)) s)) =
         effect c (str s ++ "(") ++ "<error_converting_to_string>" ++ ")") /\
      (raised c = Some other_exception ->
         fst (fallbackFormatOneArg false (mkArg (type_name T) (Some c)) s) =
         throws other_exception /\
         str (snd (fallbackFormatOneArg false (mkArg (type_name T) (Some c)) s)) =
         effect c (str s ++ "(")) /\
      (forall what, raised c = Some (std_exception what) ->
         fst (fallbackFormatOneArg true (mkArg (type_name T) (Some c)) s) = returns tt /\
         str (snd (fallbackFormatOneArg true (mkArg (type_name T) (Some c)) s)) =
         effect c (str s ++ "(" ++ T ++ ": ") ++ "<error_converting_to_string>" ++ ")") /\
      (raised c = Some other_exception ->
         fst (fallbackFormatOneArg true (mkArg (type_name T) (Some c)) s) =
         throws other_exception /\
         str (snd (fallbackFormatOneArg true (mkArg (type_name T) (Some c)) s)) =
         effect c (str s ++ "(" ++ T ++ ": "))) /\
  (forall (rtti : bool) (arg : Arg) (s : state),
      fst (fallbackFormatOneArg rtti arg s) =
      if escapes rtti arg then throws other_exception else returns tt).
Proof.
  split; [|split; [|split]].
  - intros Args to args.
    unfold createLogString, noexcept, try_catch, bind, enter, eval, message; simpl.
    destruct (to args) as [t|[what|]]; simpl; split; try discriminate; try reflexivity.
    + split; [discriminate | intros _; now eexists].
    + split; [discriminate | intros _; now eexists].
    + split; [intros [s Hs]; discriminate | intros H; now destruct H].
  - intros rtti sformat fmt arg1 remainder.
    pose proof (formatLogString_message rtti sformat fmt arg1 remainder) as Hm.
    destruct (sformat fmt (arg1 :: remainder)) as [t|[what|]].
    + split; [discriminate|]. split.
      * intros _. split; discriminate.
      * intros _. now exists t.
    + split; [discriminate|].
      destruct (existsb (escapes rtti) (arg1 :: remainder)).
      * rewrite Hm. split.
        -- intros [s Hs]; discriminate.
        -- intros [_ H]. discriminate (H what eq_refl).
      * destruct Hm as [pre Hm]. split.
        -- intros _. split; [discriminate | reflexivity].
        -- intros _. eexists. exact Hm.
    + split; [intros _; exact Hm|]. rewrite Hm. split.
      * intros [s Hs]; discriminate.
      * intros [H _]. now destruct H.
  - intros T [eff r] s. simpl.
    repeat split; intros; subst r; simpl;
      rewrite ?append_assoc; reflexivity.
  - intros rtti arg s. apply fallbackFormatOneArg_outcome.
Qed.

Lemma only_std_exceptions_are_caught_witness :
  createLogString unit (fun _ => throws other_exception) tt = (Terminated, [call_to]) /\
  fst (fallbackFormatOneArg true
         (mkArg (type_name "Widget") (Some (mkConversion "ab" (Some other_exception))))
         initial)
  = throws other_exception.
Proof.
  destruct only_std_exceptions_are_caught as [Hc [_ [_ Hone]]].
  split.
  - now apply (Hc unit (fun _ => throws other_exception) tt).
  - apply (Hone true).
Defined.

(** C4, as amended.  For an argument whose type has a [toAppend] overload
    and whose type name is found, the stringifier hands the buffer, with
    the opening parenthesis and (with RTTI) the type name and a colon
    appended, to the conversion, and then appends to what the conversion
    left: the closing parenthesis when the conversion returned, the
    placeholder [<error_converting_to_string>] and the closing parenthesis
    when it threw a [std::exception].  Hence, for a conversion that only
    appends:
    - when it returns, the stringifier emits exactly
      [(<type-name>: <converted-text>)] with RTTI and [(<converted-text>)]
      without;
    - when it throws a [std::exception], the stringifier emits exactly
      [(<type-name>: <text><error_converting_to_string>)] with RTTI and
      [(<text><error_converting_to_string>)] without, where [<text>] is
      what the conversion had appended before it threw; that is the
      placeholder alone when the conversion had appended nothing. *)
Theorem stringifier_with_conversion (T : string) (c : conversion) :
  (forall s,
      (raised c = None ->
       (fst (fallbackFormatOneArg true (mkArg (type_name T) (Some c)) s) = returns tt /\
        str (snd (fallbackFormatOneArg true (mkArg (type_name T) (Some c)) s)) =
        effect c (str s ++ "(" ++ T ++ ": ") ++ ")") /\
       (forall d,
           fst (fallbackFormatOneArg false (mkArg d (Some c)) s) = returns tt /\
           str (snd (fallbackFormatOneArg false (mkArg d (Some c)) s)) =
           effect c (str s ++ "(") ++ ")")) /\
      (forall what, raised c = Some (std_exception what) ->
       (fst (fallbackFormatOneArg true (mkArg (type_name T) (Some c)) s) = returns tt /\
        str (snd (fallbackFormatOneArg true (mkArg (type_name T) (Some c)) s)) =
        effect c (str s ++ "(" ++ T ++ ": ") ++ "<error_converting_to_string>" ++ ")") /\
       (forall d,
           fst (fallbackFormatOneArg false (mkArg d (Some c)) s) = returns tt /\
           str (snd (fallbackFormatOneArg false (mkArg d (Some c)) s)) =
           effect c (str s ++ "(") ++ "<error_converting_to_string>" ++ ")"))) /\
  (forall written, appends c written ->
   (raised c = None ->
    emits (fallbackFormatOneArg true (mkArg (type_name T) (Some c)))
      ("(" ++ T ++ ": " ++ written ++ ")") /\
    (forall d, emits (fallbackFormatOneArg false (mkArg d (Some c)))
                 ("(" ++ written ++ ")"))) /\
   (forall what, raised c = Some (std_exception what) ->
    emits (fallbackFormatOneArg true (mkArg (type_name T) (Some c)))
      ("(" ++ T ++ ": " ++ written ++ "<error_converting_to_string>" ++ ")") /\
    (forall d, emits (fallbackFormatOneArg false (mkArg d (Some c)))
                 ("(" ++ written ++ "<error_converting_to_string>" ++ ")")) /\
    (written = "" ->
     emits (fallbackFormatOneArg true (mkArg (type_name T) (Some c)))
       ("(" ++ T ++ ": " ++ "<error_converting_to_string>" ++ ")") /\
     (forall d, emits (fallbackFormatOneArg false (mkArg d (Some c)))
                  ("(" ++ "<error_converting_to_string>" ++ ")"))))).
Proof.
  assert (General : forall s,
      (raised c = None ->
       (fst (fallbackFormatOneArg true (mkArg (type_name T) (Some c)) s) = returns tt /\
        str (snd (fallbackFormatOneArg true (mkArg (type_name T) (Some c)) s)) =
        effect c (str s ++ "(" ++ T ++ ": ") ++ ")") /\
       (forall d,
           fst (fallbackFormatOneArg false (mkArg d (Some c)) s) = returns tt /\
           str (snd (fallbackFormatOneArg false (mkArg d (Some c)) s)) =
           effect c (str s ++ "(") ++ ")")) /\
      (forall what, raised c = Some (std_exception what) ->
       (fst (fallbackFormatOneArg true (mkArg (type_name T) (Some c)) s) = returns tt /\
        str (snd (fallbackFormatOneArg true (mkArg (type_name T) (Some c)) s)) =
        effect c (str s ++ "(" ++ T ++ ": ") ++ "<error_converting_to_string>" ++ ")") /\
       (forall d,
           fst (fallbackFormatOneArg false (mkArg d (Some c)) s) = returns tt /\
           str (snd (fallbackFormatOneArg false (mkArg d (Some c)) s)) =
           effect c (str s ++ "(") ++ "<error_converting_to_string>" ++ ")"))).
  { intros s. destruct c as [eff r]; simpl. split.
    - intros ->. split; [|intros d]; simpl; rewrite ?append_assoc; now split.
    - intros what ->. split; [|intros d]; simpl; rewrite ?append_assoc; now split. }
  split; [exact General|].
  intros written Hw. split.
  - intros Hr. split; [|intros d]; intros s;
      destruct (General s) as [[H1 H2] _]; [exact Hr| |exact Hr|].
    + destruct H1 as [Ho Hs]. split; [exact Ho|].
      rewrite Hs, Hw. now rewrite !append_assoc.
    + destruct (H2 d) as [Ho Hs]. split; [exact Ho|].
      rewrite Hs, Hw. now rewrite !append_assoc.
  - intros what Hr.
    assert (A : emits (fallbackFormatOneArg true (mkArg (type_name T) (Some c)))
                  ("(" ++ T ++ ": " ++ written ++ "<error_converting_to_string>" ++ ")")).
    { intros s. destruct (General s) as [_ H]. destruct (H what Hr) as [[Ho Hs] _].
      split; [exact Ho|]. rewrite Hs, Hw. now rewrite !append_assoc. }
    assert (B : forall d, emits (fallbackFormatOneArg false (mkArg d (Some c)))
                  ("(" ++ written ++ "<error_converting_to_string>" ++ ")")).
    { intros d s. destruct (General s) as [_ H]. destruct (H what Hr) as [_ H2].
      destruct (H2 d) as [Ho Hs].
      split; [exact Ho|]. rewrite Hs, Hw. now rewrite !append_assoc. }
    split; [exact A|]. split; [exact B|].
    intros ->. split; [exact A | exact B].
Qed.

(** C4 as stated fails: a conversion that appends [ab] and then throws a
    [std::exception] leaves [ab] before the placeholder. *)
Lemma stringifier_with_conversion_counterexample :
  fragment true
    (mkArg (type_name "Widget")
       (Some (mkConversion "ab" (Some (std_exception "conversion failed")))))
  = Some "(Widget: ab<error_converting_to_string>)" /\
  "(Widget: ab<error_converting_to_string>)" <> "(Widget: <error_converting_to_string>)".
Proof. split; [reflexivity | discriminate]. Qed.

Lemma stringifier_with_conversion_witness :
  emits (fallbackFormatOneArg true
           (mkArg (type_name "int") (Some (mkConversion "42" None))))
    "(int: 42)" /\
  emits (fallbackFormatOneArg true
           (mkArg (type_name "Widget")
              (Some (mkConversion "ab" (Some (std_exception "conversion failed"))))))
    "(Widget: ab<error_converting_to_string>)".
Proof.
  split.
  - destruct (stringifier_with_conversion "int" (mkConversion "42" None))
      as [_ H].
    destruct (H "42" (appends_mkConversion "42" None)) as [H1 _].
    destruct (H1 eq_refl) as [H2 _]. exact H2.
  - destruct (stringifier_with_conversion "Widget"
                (mkConversion "ab" (Some (std_exception "conversion failed"))))
      as [_ H].
    destruct (H "ab" (appends_mkConversion "ab" _)) as [_ H1].
    destruct (H1 "conversion failed" eq_refl) as [H2 _]. exact H2.
Defined.

(** C10. In the overload for a type with no [toAppend], the stringifier
    returns in every case and its fragment opens with a parenthesis and
    ends with [<no_string_conversion>)]: it is
    [(<type-name>: <no_string_conversion>)] when the type-name lookup
    succeeds, and [(<no_string_conversion>)] both when the lookup fails
    (the exception is caught and ignored) and when it is not compiled in. *)
Theorem stringifier_without_conversion :
  (forall T,
      emits (fallbackFormatOneArg true (mkArg (type_name T) None))
        ("(" ++ T ++ ": " ++ "<no_string_conversion>)")) /\
  (forall what,
      emits (fallbackFormatOneArg true (mkArg (demangle_failed what) None))
        ("(" ++ "<no_string_conversion>)")) /\
  (forall d,
      emits (fallbackFormatOneArg false (mkArg d None))
        ("(" ++ "<no_string_conversion>)")).
Proof.
  split; [|split]; intros x s; simpl; rewrite ?append_assoc; now split.
Qed.

(** ** Occurrences of a token *)

Lemma prefix_separator (c : ascii) (token : string) :
  occurs c token = false ->
  forall a b, prefix token (a ++ String c b) = prefix token a.
Proof.
  induction token as [|x token IH]; intros Hc a b.
  - now destruct a.
  - simpl in Hc. apply orb_false_iff in Hc as [Hx Hc].
    destruct a as [|y a]; simpl.
    + destruct (ascii_dec x c) as [->|]; [|reflexivity].
      now rewrite Ascii.eqb_refl in Hx.
    + destruct (ascii_dec x y); [now apply IH | reflexivity].
Qed.

Lemma contains_separator (c : ascii) (token : string) :
  occurs c token = false ->
  forall a b,
    contains token (a ++ String c b) = contains token a || contains token b.
Proof.
  intros Hc a b. induction a as [|y a IH].
  - change ("" ++ String c b) with (String c b).
    change (contains token (String c b))
      with (prefix token ("" ++ String c b) || contains token b).
    rewrite (prefix_separator c token Hc). simpl.
    now rewrite orb_false_r.
  - change (contains token (String y a ++ String c b))
      with (prefix token (String y a ++ String c b) ||
            contains token (a ++ String c b)).
    rewrite (prefix_separator c token Hc), IH.
    change (contains token (String y a))
      with (prefix token (String y a) || contains token a).
    now rewrite orb_assoc.
Qed.

Lemma contains_after_separator (c : ascii) (token : string) (b : string) :
  occurs c token = false ->
  contains token (String c b) = contains token "" || contains token b.
Proof.
  intros Hc. apply (contains_separator c token Hc "" b).
Qed.

Lemma token_free_spec (t : string) :
  token_free t = true ->
  contains error_converting_to_string t = false /\
  contains no_string_conversion t = false.
Proof.
  unfold token_free. intros H.
  apply andb_true_iff in H as [H1 H2].
  now apply negb_true_iff in H1, H2.
Qed.

(** The occurrences of a token in a fragment: the characters the
    stringifier puts around the type name and the converted text occur in
    neither token, so an occurrence lies within one of the pieces. *)
Ltac split_at_separators :=
  cbn [String.append];
  repeat first
    [ rewrite (contains_after_separator "(") by reflexivity
    | rewrite (contains_after_separator " ") by reflexivity
    | rewrite (contains_separator ":") by reflexivity
    | rewrite (contains_separator "<") by reflexivity
    | rewrite (contains_separator ")") by reflexivity ].

(** An argument whose type name contains neither token and whose conversion
    only appends a text that contains neither token supplies no token. *)
Lemma token_free_texts_supply_no_token
    (rtti : bool) (d : demangled) (written : string) (r : option exception) :
  match d with type_name T => token_free T | demangle_failed _ => true end = true ->
  token_free written = true ->
  supplies_no_token rtti (mkArg d (Some (mkConversion written r))) = true /\
  supplies_no_token rtti (mkArg d None) = true.
Proof.
  intros HT Hw. apply token_free_spec in Hw as [Hw1 Hw2].
  unfold supplies_no_token, supplied, opened, token_free.
  unfold error_converting_to_string, no_string_conversion in *.
  destruct rtti, d as [T|x]; try apply token_free_spec in HT as [HT1 HT2];
    cbn [to_append arg_type effect mkConversion];
    unfold error_converting_to_string, no_string_conversion in *;
    split; rewrite ?append_assoc; split_at_separators;
    rewrite ?HT1, ?HT2, ?Hw1, ?Hw2; reflexivity.
Qed.

(** C5, as amended.  For an argument whose type name and converted text
    contain neither placeholder token (for a conversion that does more
    than append: what the conversion leaves in the buffer it is handed
    contains neither token):
    - if its type has a [toAppend] overload and the conversion throws a
      [std::exception], its fragment contains [error_converting_to_string]
      and not [no_string_conversion];
    - if its type has no [toAppend] overload, its fragment contains
      [no_string_conversion] and not [error_converting_to_string], and the
      stringifier enters no conversion: besides itself it calls at most the
      type-name lookup;
    - no fragment of it contains both tokens. *)
Theorem placeholder_disjointness (rtti : bool) (arg : Arg) :
  supplies_no_token rtti arg = true ->
  (forall c what,
      to_append arg = Some c -> raised c = Some (std_exception what) ->
      exists f,
        fragment rtti arg = Some f /\
        contains error_converting_to_string f = true /\
        contains no_string_conversion f = false) /\
  (to_append arg = None ->
   (exists f,
       fragment rtti arg = Some f /\
       contains no_string_conversion f = true /\
       contains error_converting_to_string f = false) /\
   (forall s,
       calls (snd (fallbackFormatOneArg rtti arg s)) =
       (calls s ++ call_fallbackFormatOneArg false ::
                   (if rtti then [call_demangle] else []))%list)) /\
  (forall f,
      fragment rtti arg = Some f ->
      contains error_converting_to_string f && contains no_string_conversion f = false).
Proof.
  intros H. unfold supplies_no_token in H.
  apply token_free_spec in H as [H1 H2].
  unfold error_converting_to_string, no_string_conversion in *.
  split; [|split].
  - intros c what Hc Hr.
    rewrite fragment_cases, Hc, Hr.
    destruct rtti, (arg_type arg) as [T|w];
      eexists; (split; [reflexivity|]);
      split; split_at_separators; rewrite ?H1, ?H2; reflexivity.
  - intros Hc. split.
    + rewrite fragment_cases, Hc.
      eexists; (split; [reflexivity|]).
      change "<no_string_conversion>)" with ("<" ++ "no_string_conversion>)").
      split; split_at_separators; rewrite ?H1, ?H2; reflexivity.
    + intros s. rewrite fallbackFormatOneArg_calls.
      unfold stringifier_run.
      destruct arg as [d [c|]]; [discriminate|].
      destruct rtti, d as [T|w]; reflexivity.
  - intros f. rewrite fragment_cases.
    destruct (to_append arg) as [c|].
    + destruct rtti, (arg_type arg) as [T|w], (raised c) as [[what|]|];
        intros [= <-];
        split_at_separators; rewrite ?H1, ?H2; reflexivity.
    + intros [= <-].
      change "<no_string_conversion>)" with ("<" ++ "no_string_conversion>)").
      split_at_separators; rewrite ?H1, ?H2; reflexivity.
Qed.

(** C5 as stated fails: the fragment of an argument with no [toAppend]
    overload whose type is named [error_converting_to_string] contains
    both tokens. *)
Lemma placeholder_disjointness_counterexample :
  fragment true (mkArg (type_name "error_converting_to_string") None)
  = Some "(error_converting_to_string: <no_string_conversion>)" /\
  contains error_converting_to_string
    "(error_converting_to_string: <no_string_conversion>)" = true /\
  contains no_string_conversion
    "(error_converting_to_string: <no_string_conversion>)" = true.
Proof. repeat split. Qed.

Lemma placeholder_disjointness_witness :
  (exists f,
      fragment true
        (mkArg (type_name "ToStringFailure")
           (Some (mkConversion "" (Some (std_exception "conversion failed")))))
      = Some f /\
      contains error_converting_to_string f = true /\
      contains no_string_conversion f = false).
Proof.
  destruct (placeholder_disjointness true
              (mkArg (type_name "ToStringFailure")
                 (Some (mkConversion "" (Some (std_exception "conversion failed")))))
              eq_refl) as [H _].
  exact (H _ "conversion failed" eq_refl eq_refl).
Defined.

(** * Further properties of the fallback path *)

(** ** The shape of a fragment *)

(** X2. Unless its conversion is attempted and throws an exception not
    derived from [std::exception], the stringifier returns, and whatever
    the conversion did to the buffer, the buffer then ends with the closing
    parenthesis, so it is not empty.  When the conversion only appends,
    the fragment is an opening parenthesis, some text and a closing
    parenthesis. *)
Theorem fragment_is_parenthesised (rtti : bool) (arg : Arg) :
  escapes rtti arg = false ->
  (forall s,
      fst (fallbackFormatOneArg rtti arg s) = returns tt /\
      exists pre, str (snd (fallbackFormatOneArg rtti arg s)) = pre ++ ")") /\
  (only_appends arg ->
   exists mid, fragment rtti arg = Some ("(" ++ mid ++ ")")).
Proof.
  intros H. split.
  - intros s.
    pose proof (fallbackFormatOneArg_outcome rtti arg s) as Ho.
    rewrite H in Ho. split; [exact Ho|].
    now apply fallbackFormatOneArg_closes.
  - intros Ha. rewrite fragment_cases. unfold escapes in H.
    unfold supplied, opened.
    destruct arg as [d [c|]]; cbn [to_append arg_type] in *.
    + destruct (Ha c eq_refl) as [w Hw]. rewrite !Hw.
      destruct rtti, d as [T|x], (raised c) as [[x'|]|]; simpl in *;
        try discriminate;
        first
          [ eexists; reflexivity
          | match goal with
            | |- exists mid, Some (String "(" (?x ++ _)) = _ =>
                exists (x ++ "<error_converting_to_string>");
                do 2 f_equal; symmetry;
                exact (append_assoc x "<error_converting_to_string>" ")")
            end
          | exists "<error_converting_to_string>"; reflexivity ].
    + destruct rtti, d as [T|x]; simpl;
        first
          [ exists "<no_string_conversion>"; reflexivity
          | exists ((T ++ ": ") ++ "<no_string_conversion>");
            do 2 f_equal; symmetry;
            exact (append_assoc (T ++ ": ") "<no_string_conversion>" ")") ].
Qed.

Lemma fragment_is_parenthesised_witness :
  exists mid,
    fragment true
      (mkArg (type_name "int") (Some (mkConversion "42" None)))
    = Some ("(" ++ mid ++ ")").
Proof.
  destruct (fragment_is_parenthesised true
              (mkArg (type_name "int") (Some (mkConversion "42" None)))
              eq_refl) as [_ H].
  apply H. intros c [= <-]. eexists. apply appends_mkConversion.
Defined.

(** ** A failing type-name lookup hides the conversion *)

(** X3. In the [toAppend] overload the type-name lookup sits in the same
    [try] block as the conversion: when the lookup throws, [toAppend] is
    not called for the argument, and the fragment is the error placeholder
    alone, whatever the conversion would have written or thrown. *)
Theorem failed_lookup_hides_conversion
    (what : string) (c : conversion) (s : state) :
  fallbackFormatOneArg true (mkArg (demangle_failed what) (Some c)) s =
  (returns tt,
   mkState (str s ++ "(<error_converting_to_string>)")
           (calls s ++ [call_fallbackFormatOneArg true; call_demangle])).
Proof.
  unfold fallbackFormatOneArg; cbn [to_append arg_type].
  unfold fallbackFormatOneArg_int, try_catch, bind, enter, push_back, append,
    toAppend_demangle, throw.
  simpl.
  now rewrite !append_assoc, <- !app_assoc.
Qed.

(** ** What the composer does, argument by argument *)

(** X4. [fallbackFormat] handles the arguments in order, each exactly once,
    and stops at the first one whose conversion throws past the
    stringifier: its calls are, for each argument it gets to, one entry of
    [fallbackFormat] followed by the calls of that argument's stringifier,
    and nothing is called for the arguments after that one.  When the
    conversions only append, the buffer gains what the stringifiers wrote,
    joined by [", "]; no separator follows the last text, also when an
    exception leaves. *)
Theorem fallbackFormat_run (rtti : bool) (remainder : list Arg) :
  forall (arg1 : Arg) (s : state),
    calls (snd (fallbackFormat rtti arg1 remainder s)) =
    (calls s ++
     flat_map (fun a => call_fallbackFormat :: calls (stringifier_run rtti a))
              (processed rtti (arg1 :: remainder)))%list /\
    (Forall only_appends (arg1 :: remainder) ->
     str (snd (fallbackFormat rtti arg1 remainder s)) =
     str s ++
     String.concat ", "
       (map (fun a => str (stringifier_run rtti a))
            (processed rtti (arg1 :: remainder)))).
Proof.
  intros arg1 s. split; [apply fallbackFormat_calls|].
  revert arg1 s.
  induction remainder as [|arg2 rest IH]; intros arg1 s Ha;
    inversion Ha as [|? ? Ha1 Ha2]; subst.
  - simpl fallbackFormat. rewrite enter_bind.
    rewrite (framed_fallbackFormatOneArg rtti arg1 Ha1).
    rewrite processed_cons.
    replace (if escapes rtti arg1 then [] else processed rtti [])
      with (@nil Arg) by (now destruct (escapes rtti arg1)).
    reflexivity.
  - rewrite fallbackFormat_unfold, enter_bind.
    unfold bind at 1.
    rewrite (framed_fallbackFormatOneArg rtti arg1 Ha1).
    pose proof (fallbackFormatOneArg_outcome rtti arg1 initial) as Ho.
    rewrite (processed_cons rtti arg1).
    destruct (escapes rtti arg1); rewrite Ho.
    + reflexivity.
    + rewrite append_bind, (IH arg2 _ Ha2), (processed_cons rtti arg2).
      unfold stringifier_run, plus; simpl.
      now rewrite !append_assoc.
Qed.

Lemma fallbackFormat_run_witness :
  str (snd (fallbackFormat true
              (mkArg (type_name "Widget") None)
              [mkArg (type_name "int") (Some (mkConversion "42" None))]
              (mkState "arguments: " [])))
  = "arguments: " ++
    String.concat ", "
      (map (fun a => str (stringifier_run true a))
           (processed true
              [mkArg (type_name "Widget") None;
               mkArg (type_name "int") (Some (mkConversion "42" None))])).
Proof.
  apply (fallbackFormat_run true
           [mkArg (type_name "int") (Some (mkConversion "42" None))]
           (mkArg (type_name "Widget") None) (mkState "arguments: " [])).
  repeat constructor.
  - intros c; discriminate.
  - intros c [= <-]. eexists. apply appends_mkConversion.
Defined.

(** X5. [fallbackFormat] returns exactly when no argument's conversion
    throws past its stringifier; otherwise the exception that leaves it is
    one not derived from [std::exception]: it never lets a
    [std::exception] through. *)
Theorem fallbackFormat_returns_or_escapes
    (rtti : bool) (arg1 : Arg) (remainder : list Arg) (s : state) :
  (fst (fallbackFormat rtti arg1 remainder s) = returns tt <->
   existsb (escapes rtti) (arg1 :: remainder) = false) /\
  (fst (fallbackFormat rtti arg1 remainder s) = throws other_exception <->
   existsb (escapes rtti) (arg1 :: remainder) = true) /\
  (forall what,
      fst (fallbackFormat rtti arg1 remainder s) <> throws (std_exception what)).
Proof.
  rewrite (fallbackFormat_outcome rtti remainder arg1 s).
  destruct (existsb (escapes rtti) (arg1 :: remainder));
    repeat split; intros; try discriminate; reflexivity.
Qed.

Lemma stringifier_run_without_rtti (arg : Arg) :
  ~ In call_demangle (calls (stringifier_run false arg)).
Proof.
  unfold stringifier_run.
  destruct arg as [d [[eff [[w|]|]]|]]; simpl; intros H;
    repeat (destruct H as [H|H]; [discriminate|]); exact H.
Qed.

(** X6. Without [FOLLY_HAS_RTTI] the fallback path never looks a type name
    up, and an argument's fragment does not depend on its type: two
    arguments with the same conversion are stringified alike. *)
Theorem no_lookup_without_rtti :
  (forall arg1 remainder,
      ~ In call_demangle (calls (snd (fallbackFormat false arg1 remainder initial)))) /\
  (forall d d' conv s,
      fallbackFormatOneArg false (mkArg d conv) s =
      fallbackFormatOneArg false (mkArg d' conv) s).
Proof.
  split.
  - intros arg1 remainder. rewrite fallbackFormat_calls.
    unfold initial; cbn [calls app].
    intros H. apply in_flat_map in H as [a [_ [H|H]]]; [discriminate|].
    now apply (stringifier_run_without_rtti a).
  - intros d d' [c|] s; reflexivity.
Qed.

(** ** What a message tells *)

Lemma prefix_app (t b : string) : prefix t (t ++ b) = true.
Proof.
  induction t as [|x t IH]; simpl; [now destruct b|].
  destruct (ascii_dec x x) as [_|H]; [exact IH | now destruct H].
Qed.

Lemma contains_unfold (t s : string) :
  contains t s =
  prefix t s || match s with EmptyString => false | String _ s' => contains t s' end.
Proof. now destruct s. Qed.

Lemma contains_infix (t a b : string) : contains t (a ++ t ++ b) = true.
Proof.
  induction a as [|x a IH].
  - change ("" ++ t ++ b) with (t ++ b).
    rewrite contains_unfold, prefix_app. reflexivity.
  - change (String x a ++ t ++ b) with (String x (a ++ t ++ b)).
    rewrite contains_unfold, IH. apply orb_true_r.
Qed.

Lemma closed_is_not_empty (pre : string) : pre ++ ")" <> "".
Proof. destruct pre; discriminate. Qed.

(** X7. A message built on a failure path is never empty: [createLogString]
    returns the empty string only when [folly::to<std::string>] returned
    it, and [formatLogString] only when [folly::sformat] returned it. *)
Theorem empty_message_is_primary_output :
  (forall (Args : Type) (to : Args -> outcome string) (args : Args),
      message (createLogString Args to args) = Returned "" ->
      to args = returns "") /\
  (forall (rtti : bool) (sformat : string -> list Arg -> outcome string)
          (fmt : string) (arg1 : Arg) (remainder : list Arg),
      message (formatLogString rtti sformat fmt arg1 remainder) = Returned "" ->
      sformat fmt (arg1 :: remainder) = returns "").
Proof.
  split.
  - intros Args to args.
    unfold createLogString, noexcept, try_catch, bind, enter, eval, message; simpl.
    destruct (to args) as [t|[what|]]; simpl; intros H;
      [now injection H as -> | discriminate | discriminate].
  - intros rtti sformat fmt arg1 remainder H.
    pose proof (formatLogString_message rtti sformat fmt arg1 remainder) as Hm.
    destruct (sformat fmt (arg1 :: remainder)) as [t|[what|]].
    + rewrite H in Hm. now injection Hm as <-.
    + destruct (existsb (escapes rtti) (arg1 :: remainder)).
      * rewrite H in Hm. discriminate.
      * destruct Hm as [pre Hm]. rewrite H in Hm.
        apply Returned_inj in Hm. symmetry in Hm.
        now apply closed_is_not_empty in Hm.
    + unfold message in H. rewrite Hm in H. discriminate.
Qed.

Lemma empty_message_is_primary_output_witness :
  folly_to [] = returns "" /\
  (fun (_ : string) (_ : list Arg) => returns "") "" [mkArg (type_name "int") None]
  = returns "".
Proof.
  destruct empty_message_is_primary_output as [Hc Hf].
  split.
  - apply (Hc (list conversion) folly_to []). reflexivity.
  - apply (Hf true (fun _ _ => returns "") "" (mkArg (type_name "int") None) []).
    reflexivity.
Defined.

(** X8. When the arguments' conversions only append to the buffer they are
    handed, whenever [formatLogString] returns after [folly::sformat] threw
    a [std::exception], the message starts with
    ["error formatting log message: "] and contains both the [what()] text
    of the exception and the format string, verbatim. *)
Theorem fallback_message_names_error_and_template
    (rtti : bool) (sformat : string -> list Arg -> outcome string)
    (fmt : string) (arg1 : Arg) (remainder : list Arg) (what msg : string) :
  sformat fmt (arg1 :: remainder) = throws (std_exception what) ->
  Forall only_appends (arg1 :: remainder) ->
  message (formatLogString rtti sformat fmt arg1 remainder) = Returned msg ->
  prefix "error formatting log message: " msg = true /\
  contains what msg = true /\
  contains fmt msg = true.
Proof.
  intros Hs Ha H.
  pose proof (formatLogString_message rtti sformat fmt arg1 remainder) as Hm.
  rewrite Hs in Hm.
  destruct (existsb (escapes rtti) (arg1 :: remainder)) eqn:He.
  - rewrite H in Hm. discriminate.
  - destruct (fragments_exist rtti _ He) as [frags Hf].
    pose proof (formatLogString_appending rtti sformat fmt arg1 remainder
                  what frags Hs Ha Hf) as Hx.
    rewrite H in Hx. apply Returned_inj in Hx. subst msg.
    split; [apply prefix_app|]. split.
    + apply contains_infix.
    + rewrite <- 3 append_assoc. apply contains_infix.
Qed.

Lemma fallback_message_names_error_and_template_witness :
  prefix "error formatting log message: "
    ("error formatting log message: invalid format string; format string: " ++
     dquote ++ "{} widgets" ++ dquote ++
     ", arguments: (Widget: <no_string_conversion>)") = true /\
  contains "invalid format string"
    ("error formatting log message: invalid format string; format string: " ++
     dquote ++ "{} widgets" ++ dquote ++
     ", arguments: (Widget: <no_string_conversion>)") = true /\
  contains "{} widgets"
    ("error formatting log message: invalid format string; format string: " ++
     dquote ++ "{} widgets" ++ dquote ++
     ", arguments: (Widget: <no_string_conversion>)") = true.
Proof.
  apply (fallback_message_names_error_and_template true
           (fun _ _ => throws (std_exception "invalid format string"))
           "{} widgets" (mkArg (type_name "Widget") None) []
           "invalid format string");
    [reflexivity | repeat constructor; intros c; discriminate | reflexivity].
Defined.

(** ** The calls of a format-mode construction *)

(** X10. [formatLogString] calls [folly::sformat] exactly once, first, and
    never again.  If it returned, or threw an exception not derived from
    [std::exception], nothing else is called; after a [std::exception] the
    calls that follow are those of [fallbackFormat] over the arguments, in
    order, up to the first whose conversion throws past the stringifier.
    [folly::to<std::string>] is not called in format mode. *)
Theorem formatLogString_calls
    (rtti : bool) (sformat : string -> list Arg -> outcome string)
    (fmt : string) (arg1 : Arg) (remainder : list Arg) :
  snd (formatLogString rtti sformat fmt arg1 remainder) =
  call_sformat ::
  match sformat fmt (arg1 :: remainder) with
  | throws (std_exception _) =>
      flat_map (fun a => call_fallbackFormat :: calls (stringifier_run rtti a))
               (processed rtti (arg1 :: remainder))
  | _ => []
  end.
Proof.
  unfold formatLogString. rewrite noexcept_calls.
  unfold try_catch. unfold bind at 1. unfold enter at 1. unfold eval at 1.
  destruct (sformat fmt (arg1 :: remainder)) as [t|[what|]]; try reflexivity.
  rewrite !append_bind, snd_bind_get_str, fallbackFormat_calls.
  reflexivity.
Qed.
